(** * DualBootPatcher: the patchinfo modules and their filename matchers

    The three patchinfo modules

      - [patchinfo/Google_Apps/gapps-gummy.py]
      - [patchinfo/jflte/ROMs/AOSP/aosp.py]
      - [patchinfo/jflte/ROMs/GoogleEdition/ge-MaKTaiL.py]

    each build a [FileInfo] object at import time and export two functions,
    [matches(filename)] and [get_file_info()].  [matches] hands the module's
    [filename_regex] to Python's [re.search].

    Python strings are modelled as lists of code points, module globals as
    an explicit namespace threaded through a small state-and-exception
    monad, and [re] by a parser and a backtracking matcher for the pattern
    syntax the three modules use. *)

From Stdlib Require Import String Ascii List Bool Arith NArith Lia.
Import ListNotations.

Local Open Scope string_scope.
Local Open Scope bool_scope.
Local Open Scope list_scope.

(** ** Python strings *)

(** A character is a Unicode code point.  Python's code points stay below
    1114112; nothing here depends on that bound. *)
Definition char : Type := N.

(** [str]: a sequence of code points. *)
Definition str : Type := list char.

(** [ord(c)] for a character written in the source. *)
Definition ord (c : ascii) : char := N_of_ascii c.

Arguments ord c%_char.

(** A string literal of the source. *)
Fixpoint lit (s : string) : str :=
  match s with
  | EmptyString => []
  | String c s' => ord c :: lit s'
  end.

Arguments lit s%_string.

(** ** Results of Python calls *)

(** The exceptions the modelled code can meet. *)
Inductive exception : Type :=
| re_error.                    (* [re.error]: the pattern does not compile *)

(** A call either returns a value or raises. *)
Inductive outcome (A : Type) : Type :=
| Return (v : A)
| Raise (e : exception).

Arguments Return {A} v.
Arguments Raise {A} e.

(** ** Python's [re], restricted to the syntax of the three patterns *)

Module re.

(** The line feed, the only character [.] refuses and the only one [$]
    tolerates after its position. *)
Definition LF : char := 10%N.

(** A character atom: a literal, [.], or a one-range class [[lo-hi]]. *)
Inductive atom : Type :=
| Lit (c : char)
| Dot
| Range (lo hi : char).

(** Repetition of an atom: none, [*], [+], [{n}]. *)
Inductive quant : Type :=
| One
| Star
| Plus
| Times (n : nat).

(** One element of a pattern: the assertions [^] and [$], or a repeated
    character atom. *)
Inductive item : Type :=
| Bol
| Eol
| Chars (a : atom) (q : quant).

Definition regex : Type := list item.

(** *** Parsing a pattern string *)

(** What the parser is in the middle of. *)
Inductive mode : Type :=
| Normal
| Escape                                (* after a backslash *)
| ClassOpen                             (* after [[] *)
| ClassLo (lo : char)                   (* after [[lo] *)
| ClassDash (lo : char)                 (* after [[lo-] *)
| ClassHi (lo hi : char)                (* after [[lo-hi], expecting []] *)
| Count (n : option nat).               (* after [{], digits read so far *)

Definition is_digit (c : char) : bool :=
  (ord "0" <=? c)%N && (c <=? ord "9")%N.

Definition is_alpha (c : char) : bool :=
  ((ord "a" <=? c)%N && (c <=? ord "z")%N)
  || ((ord "A" <=? c)%N && (c <=? ord "Z")%N).

Definition digit_value (c : char) : nat := N.to_nat (c - ord "0").

(** A repetition applies to the atom just read; an assertion, an atom that
    is already repeated, or nothing at all cannot be repeated. *)
Definition repeat_last (q : quant) (acc : list item) : option (list item) :=
  match acc with
  | Chars a One :: rest => Some (Chars a q :: rest)
  | _ => None
  end.

(** One pass over the pattern, left to right; [acc] holds the items read so
    far, last one first.  [None] stands for a pattern that [re] rejects or
    that uses syntax outside the modelled fragment. *)
Fixpoint parse_from (m : mode) (acc : list item) (p : str) : option regex :=
  match p with
  | [] =>
      match m with
      | Normal => Some (rev acc)
      | _ => None
      end
  | c :: p' =>
      match m with
      | Normal =>
          if (c =? ord "^")%N then parse_from Normal (Bol :: acc) p'
          else if (c =? ord "$")%N then parse_from Normal (Eol :: acc) p'
          else if (c =? ord ".")%N then parse_from Normal (Chars Dot One :: acc) p'
          else if (c =? ord "\")%N then parse_from Escape acc p'
          else if (c =? ord "[")%N then parse_from ClassOpen acc p'
          else if (c =? ord "*")%N then
            match repeat_last Star acc with
            | Some acc' => parse_from Normal acc' p'
            | None => None
            end
          else if (c =? ord "+")%N then
            match repeat_last Plus acc with
            | Some acc' => parse_from Normal acc' p'
            | None => None
            end
          else if (c =? ord "{")%N then parse_from (Count None) acc p'
          else if (c =? ord "?")%N || (c =? ord "|")%N || (c =? ord "(")%N
                  || (c =? ord ")")%N || (c =? ord "]")%N || (c =? ord "}")%N
          then None
          else parse_from Normal (Chars (Lit c) One :: acc) p'
      | Escape =>
          if is_digit c || is_alpha c then None
          else parse_from Normal (Chars (Lit c) One :: acc) p'
      | ClassOpen =>
          if (c =? ord "^")%N || (c =? ord "]")%N || (c =? ord "\")%N
                  || (c =? ord "[")%N
          then None
          else parse_from (ClassLo c) acc p'
      | ClassLo lo =>
          if (c =? ord "-")%N then parse_from (ClassDash lo) acc p' else None
      | ClassDash lo =>
          if (c =? ord "]")%N || (c =? ord "\")%N || (c =? ord "[")%N then None
          else parse_from (ClassHi lo c) acc p'
      | ClassHi lo hi =>
          if (c =? ord "]")%N && (lo <=? hi)%N
          then parse_from Normal (Chars (Range lo hi) One :: acc) p'
          else None
      | Count n =>
          if is_digit c then
            parse_from
              (Count (Some (10 * match n with Some k => k | None => 0 end
                            + digit_value c))) acc p'
          else if (c =? ord "}")%N then
            match n with
            | Some k =>
                match repeat_last (Times k) acc with
                | Some acc' => parse_from Normal acc' p'
                | None => None
                end
            | None => None
            end
          else None
      end
  end.

Definition parse (pattern : str) : option regex :=
  parse_from Normal [] pattern.

(** *** Matching *)

(** Does the atom accept this character?  [.] accepts every code point but
    the line feed (no DOTALL flag); a class accepts by code point. *)
Definition atom_ok (a : atom) (c : char) : bool :=
  match a with
  | Lit x => (c =? x)%N
  | Dot => negb (c =? LF)%N
  | Range lo hi => (lo <=? c)%N && (c <=? hi)%N
  end.

(** [$] without MULTILINE: at the end of the string, or just before a line
    feed that is the last character of the string. *)
Definition at_end (s : str) : bool :=
  match s with
  | [] => true
  | [c] => (c =? LF)%N
  | _ => false
  end.

(** The matcher is written in continuation-passing style: [k bol rest]
    tries the remainder of the pattern on the remainder of the string;
    [bol] tells whether [rest] is still the whole string. *)
Definition cont : Type := bool -> str -> bool.

(** Exactly [n] characters accepted by [a], then [k]. *)
Fixpoint match_times (n : nat) (a : atom) (k : cont) (bol : bool) (s : str)
  : bool :=
  match n with
  | O => k bol s
  | S n' =>
      match s with
      | c :: s' => atom_ok a c && match_times n' a k false s'
      | [] => false
      end
  end.

(** Any number of characters accepted by [a], longest run first, giving
    characters back to [k] one at a time. *)
Fixpoint match_star (a : atom) (k : cont) (bol : bool) (s : str) : bool :=
  match s with
  | c :: s' => (atom_ok a c && match_star a k false s') || k bol s
  | [] => k bol s
  end.

(** Match the whole pattern at the current position. *)
Fixpoint match_here (r : regex) : cont :=
  match r with
  | [] => fun _ _ => true
  | Bol :: r' => fun bol s => bol && match_here r' bol s
  | Eol :: r' => fun bol s => at_end s && match_here r' bol s
  | Chars a One :: r' => match_times 1 a (match_here r')
  | Chars a Star :: r' => match_star a (match_here r')
  | Chars a Plus :: r' => match_times 1 a (match_star a (match_here r'))
  | Chars a (Times n) :: r' => match_times n a (match_here r')
  end.

(** A continuation that does not look at [bol]. *)
Definition flagless (k : cont) : Prop :=
  forall (b1 b2 : bool) (s : str), k b1 s = k b2 s.

(** Scan for the leftmost position where the pattern matches; [pos] is the
    offset of [s] in the string being searched. *)
Fixpoint scan (r : regex) (pos : nat) (s : str) : option nat :=
  if match_here r (Nat.eqb pos 0) s then Some pos
  else match s with
       | _ :: s' => scan r (S pos) s'
       | [] => None
       end.

(** A match object; only where the match starts is recorded. *)
Record Match : Type := { start : nat }.

(** [re.search(pattern, string)]: compile the pattern, scan the string, and
    return a match object or [None]. *)
Definition search (pattern : str) (s : str) : outcome (option Match) :=
  match parse pattern with
  | None => Raise re_error
  | Some r =>
      match scan r 0 s with
      | Some p => Return (Some {| start := p |})
      | None => Return None
      end
  end.

End re.

(** ** Objects and module namespaces *)

(** The two functions of [multiboot.autopatcher] that the modules store in
    their descriptor.  They are stored, never called, by the code here. *)
Module autopatcher.
Inductive function : Type :=
| auto_patch
| files_to_auto_patch.
End autopatcher.

(** Modelled from the spec: the class [FileInfo] of [multiboot.fileinfo],
    which is not among the sources.  The spec gives a descriptor a display
    name, an optional ramdisk reference where [None] means no ramdisk
    customization, the flag [has_boot_image] with default true, and
    references to an extraction and a patch behaviour, which can be
    unset. *)
Record FileInfo : Type := {
  name : option str;
  ramdisk : option str;
  has_boot_image : bool;
  patch : option autopatcher.function;
  extract : option autopatcher.function
}.

(** Modelled from the spec: [FileInfo()], a fresh descriptor with every
    field at its default. *)
Definition FileInfo_new : FileInfo :=
  {| name := None; ramdisk := None; has_boot_image := true;
     patch := None; extract := None |}.

(** Attribute assignments [obj.field = value]. *)
Definition set_name (v : str) (o : FileInfo) : FileInfo :=
  {| name := Some v; ramdisk := ramdisk o; has_boot_image := has_boot_image o;
     patch := patch o; extract := extract o |}.
Definition set_ramdisk (v : str) (o : FileInfo) : FileInfo :=
  {| name := name o; ramdisk := Some v; has_boot_image := has_boot_image o;
     patch := patch o; extract := extract o |}.
Definition set_has_boot_image (v : bool) (o : FileInfo) : FileInfo :=
  {| name := name o; ramdisk := ramdisk o; has_boot_image := v;
     patch := patch o; extract := extract o |}.
Definition set_patch (v : autopatcher.function) (o : FileInfo) : FileInfo :=
  {| name := name o; ramdisk := ramdisk o; has_boot_image := has_boot_image o;
     patch := Some v; extract := extract o |}.
Definition set_extract (v : autopatcher.function) (o : FileInfo) : FileInfo :=
  {| name := name o; ramdisk := ramdisk o; has_boot_image := has_boot_image o;
     patch := patch o; extract := Some v |}.

(** The global variables of a patchinfo module.  All three modules bind
    the same two names. *)
Record namespace : Type := {
  filename_regex : str;
  file_info : FileInfo
}.

(** A Python computation inside a module: it reads and may write the
    module's globals, and returns or raises. *)
Definition Py (A : Type) : Type := namespace -> outcome A * namespace.

Definition ret {A : Type} (v : A) : Py A := fun g => (Return v, g).

Definition bind {A B : Type} (m : Py A) (f : A -> Py B) : Py B :=
  fun g =>
    match m g with
    | (Return v, g') => f v g'
    | (Raise e, g') => (Raise e, g')
    end.

(** Reading a global variable. *)
Definition global {A : Type} (var : namespace -> A) : Py A :=
  fun g => (Return (var g), g).

(** Calling a library function that touches no global of the module. *)
Definition call {A : Type} (r : outcome A) : Py A := fun g => (r, g).

Notation "x <- m ;; k" := (bind m (fun x => k))
  (at level 61, m at next level, right associativity).

(** Truth value of the result of [re.search]: a match object is true,
    [None] is false. *)
Definition truthy (m : option re.Match) : bool :=
  match m with
  | Some _ => true
  | None => false
  end.

(** What a call returns, and the globals it leaves, from globals [g]. *)
Definition result {A : Type} (g : namespace) (m : Py A) : outcome A := fst (m g).
Definition globals_after {A : Type} (g : namespace) (m : Py A) : namespace :=
  snd (m g).

(** ** The three modules *)

(** [patchinfo/Google_Apps/gapps-gummy.py] *)
Module gapps_gummy.

(** The module body, executed at import. *)
Definition globals : namespace :=
  let file_info := FileInfo_new in
  let filename_regex := lit "^gapps-kk-[0-9]{8}\.zip$" in
  let file_info := set_name (lit "Gummy Google Apps") file_info in
  let file_info := set_patch autopatcher.auto_patch file_info in
  let file_info := set_extract autopatcher.files_to_auto_patch file_info in
  let file_info := set_has_boot_image false file_info in
  {| filename_regex := filename_regex; file_info := file_info |}.

Definition matches (filename : str) : Py bool :=
  pattern <- global filename_regex ;;
  m <- call (re.search pattern filename) ;;
  if truthy m then ret true else ret false.

Definition get_file_info : Py FileInfo :=
  global file_info.

End gapps_gummy.

(** [patchinfo/jflte/ROMs/AOSP/aosp.py] *)
Module aosp.

Definition globals : namespace :=
  let file_info := FileInfo_new in
  let filename_regex := lit "^aosp[0-9]+-i9505-.*\.zip$" in
  let file_info := set_name (lit "Broodplank's AOSP") file_info in
  let file_info := set_ramdisk (lit "jflte/AOSP/AOSP.def") file_info in
  let file_info := set_patch autopatcher.auto_patch file_info in
  let file_info := set_extract autopatcher.files_to_auto_patch file_info in
  {| filename_regex := filename_regex; file_info := file_info |}.

Definition matches (filename : str) : Py bool :=
  pattern <- global filename_regex ;;
  m <- call (re.search pattern filename) ;;
  if truthy m then ret true else ret false.

Definition get_file_info : Py FileInfo :=
  global file_info.

End aosp.

(** [patchinfo/jflte/ROMs/GoogleEdition/ge-MaKTaiL.py] *)
Module ge_MaKTaiL.

Definition globals : namespace :=
  let file_info := FileInfo_new in
  let filename_regex := lit "^i9505-ge-untouched-4.3-.*.zip$" in
  let file_info := set_name (lit "MaKTaiL's Google Edition") file_info in
  let file_info :=
    set_ramdisk (lit "jflte/GoogleEdition/GoogleEdition.def") file_info in
  let file_info := set_patch autopatcher.auto_patch file_info in
  let file_info := set_extract autopatcher.files_to_auto_patch file_info in
  {| filename_regex := filename_regex; file_info := file_info |}.

Definition matches (filename : str) : Py bool :=
  pattern <- global filename_regex ;;
  m <- call (re.search pattern filename) ;;
  if truthy m then ret true else ret false.

Definition get_file_info : Py FileInfo :=
  global file_info.

End ge_MaKTaiL.

(** ** The three modules side by side *)

(** The patchinfo modules under [src/patchinfo], by display name. *)
Inductive patchinfo : Type :=
| Gummy_Google_Apps
| Broodplanks_AOSP
| MaKTaiLs_Google_Edition.

Definition all_patchinfo : list patchinfo :=
  [Gummy_Google_Apps; Broodplanks_AOSP; MaKTaiLs_Google_Edition].

(** The globals of a module once it has been imported. *)
Definition imported (m : patchinfo) : namespace :=
  match m with
  | Gummy_Google_Apps => gapps_gummy.globals
  | Broodplanks_AOSP => aosp.globals
  | MaKTaiLs_Google_Edition => ge_MaKTaiL.globals
  end.

Definition matches_of (m : patchinfo) : str -> Py bool :=
  match m with
  | Gummy_Google_Apps => gapps_gummy.matches
  | Broodplanks_AOSP => aosp.matches
  | MaKTaiLs_Google_Edition => ge_MaKTaiL.matches
  end.

Definition get_file_info_of (m : patchinfo) : Py FileInfo :=
  match m with
  | Gummy_Google_Apps => gapps_gummy.get_file_info
  | Broodplanks_AOSP => aosp.get_file_info
  | MaKTaiLs_Google_Edition => ge_MaKTaiL.get_file_info
  end.

(** [matches(filename)] called on the freshly imported module. *)
Definition matches (m : patchinfo) (filename : str) : outcome bool :=
  result (imported m) (matches_of m filename).

(** The modules whose matcher returns [True] on a filename. *)
Definition candidates (filename : str) : list patchinfo :=
  filter (fun m => match matches m filename with
                   | Return true => true
                   | _ => false
                   end) all_patchinfo.

(** A run of [matches] calls, one per filename, on one module; the results
    are collected and the globals threaded through. *)
Fixpoint matches_each (m : patchinfo) (filenames : list str)
  : Py (list bool) :=
  match filenames with
  | [] => ret []
  | f :: rest =>
      b <- matches_of m f ;;
      bs <- matches_each m rest ;;
      ret (b :: bs)
  end.

(** ** Strings *)

(** [s.upper()] on the letters a to z, which go to A to Z; other
    characters are left as they are. *)
Definition upper_char (c : char) : char :=
  if (ord "a" <=? c)%N && (c <=? ord "z")%N
  then (c - 32)%N
  else c.

Definition upper (s : str) : str := map upper_char s.

(** [s == t] *)
Fixpoint str_eqb (s t : str) : bool :=
  match s, t with
  | [], [] => true
  | c :: s', d :: t' => (c =? d)%N && str_eqb s' t'
  | _, _ => false
  end.

(** [s.startswith(prefix)] *)
Fixpoint startswith (s prefix : str) : bool :=
  match prefix, s with
  | [], _ => true
  | p :: prefix', c :: s' => (c =? p)%N && startswith s' prefix'
  | _ :: _, [] => false
  end.

(** [sub in s] *)
Fixpoint contains (sub s : str) : bool :=
  startswith s sub ||
  match s with
  | [] => false
  | _ :: s' => contains sub s'
  end.

(** [s.endswith(suffix)] *)
Definition endswith (s suffix : str) : bool :=
  (length suffix <=? length s)%nat &&
  str_eqb (skipn (length s - length suffix) s) suffix.

(** Does the string end in a line feed? *)
Fixpoint ends_with_LF (s : str) : bool :=
  match s with
  | [] => false
  | [c] => (c =? re.LF)%N
  | _ :: s' => ends_with_LF s'
  end.

(** The string without its last character. *)
Fixpoint chop (s : str) : str :=
  match s with
  | [] => []
  | [_] => []
  | c :: s' => c :: chop s'
  end.

(** ** The language of a pattern *)

(** The strings a pattern describes from their first to their last
    character, defined on the pattern's structure and without any search:
    a string belongs to the language of a sequence of repeated atoms when
    it can be cut into consecutive pieces, one per atom, each piece made
    of characters the atom accepts and of a length the repetition allows. *)
Module language.

Import re.

(** Every way to cut a string in two. *)
Fixpoint splits (s : str) : list (str * str) :=
  ([], s) ::
  match s with
  | [] => []
  | c :: s' => map (fun p => (c :: fst p, snd p)) (splits s')
  end.

Fixpoint all_ok (a : atom) (s : str) : bool :=
  match s with
  | [] => true
  | c :: s' => if atom_ok a c then all_ok a s' else false
  end.

(** The lengths a repetition allows. *)
Definition allowed (q : quant) (n : nat) : Prop :=
  match q with
  | One => n = 1
  | Star => True
  | Plus => 1 <= n
  | Times k => n = k
  end.

(** A piece for one repeated atom. *)
Definition piece (a : atom) (q : quant) (s : str) : bool :=
  match q with
  | One => if (length s =? 1)%nat then all_ok a s else false
  | Star => all_ok a s
  | Plus => if (1 <=? length s)%nat then all_ok a s else false
  | Times n => if (length s =? n)%nat then all_ok a s else false
  end.

Fixpoint pieces (b : list (atom * quant)) (s : str) : bool :=
  match b with
  | [] => match s with [] => true | _ :: _ => false end
  | (a, q) :: b' =>
      existsb (fun p => if piece a q (fst p) then pieces b' (snd p) else false)
              (splits s)
  end.

(** The repeated atoms of a pattern, its assertions left out. *)
Fixpoint body (r : regex) : list (atom * quant) :=
  match r with
  | [] => []
  | Chars a q :: r' => (a, q) :: body r'
  | _ :: r' => body r'
  end.

Fixpoint items (b : list (atom * quant)) : regex :=
  match b with
  | [] => []
  | (a, q) :: b' => Chars a q :: items b'
  end.

(** A pattern of the shape [^ ... $] with no other assertion inside. *)
Definition anchored (r : regex) : Prop :=
  r = Bol :: items (body r) ++ [Eol].

(** Membership of a string in the language of a pattern string. *)
Definition member (pattern : str) (s : str) : bool :=
  match parse pattern with
  | Some r => pieces (body r) s
  | None => false
  end.

(** The least length of a string of the language, and whether every
    string of the language has that length. *)
Fixpoint min_length (b : list (atom * quant)) : nat :=
  match b with
  | [] => 0
  | (_, One) :: b' => 1 + min_length b'
  | (_, Star) :: b' => min_length b'
  | (_, Plus) :: b' => 1 + min_length b'
  | (_, Times n) :: b' => n + min_length b'
  end.

Fixpoint fixed_length (b : list (atom * quant)) : bool :=
  match b with
  | [] => true
  | (_, One) :: b' => fixed_length b'
  | (_, Times _) :: b' => fixed_length b'
  | _ => false
  end.

End language.

(** The language of a module's pattern. *)
Definition in_language (m : patchinfo) (filename : str) : bool :=
  language.member (filename_regex (imported m)) filename.

(** The repeated atoms of a module's pattern. *)
Definition pattern_body (m : patchinfo) : list (re.atom * re.quant) :=
  match re.parse (filename_regex (imported m)) with
  | Some r => language.body r
  | None => []
  end.

(** The literal character a module's pattern starts with, if it starts
    with one. *)
Definition first_literal (m : patchinfo) : option char :=
  match pattern_body m with
  | (re.Lit c, re.One) :: _ => Some c
  | _ => None
  end.

(** ** Shapes of filenames *)

(** Every character of the string passes the test. *)
Fixpoint all_chars (p : char -> bool) (s : str) : bool :=
  match s with
  | [] => true
  | c :: s' => if p c then all_chars p s' else false
  end.

(** A run of decimal digits. *)
Definition all_digits (s : str) : bool := all_chars re.is_digit s.

(** A string without any line feed. *)
Definition LF_free (s : str) : bool :=
  all_chars (fun c => negb (c =? re.LF)%N) s.

(** The string made of one line feed. *)
Definition LF_string : str := [re.LF].

(** The atoms of a literal text, one unrepeated literal per character. *)
Fixpoint literals (w : str) : list (re.atom * re.quant) :=
  match w with
  | [] => []
  | c :: w' => (re.Lit c, re.One) :: literals w'
  end.

(** The literal text a sequence of atoms starts with. *)
Fixpoint literal_run (b : list (re.atom * re.quant)) : str :=
  match b with
  | (re.Lit c, re.One) :: b' => c :: literal_run b'
  | _ => []
  end.

(** No atom of the sequence accepts the line feed. *)
Definition rejects_LF (b : list (re.atom * re.quant)) : bool :=
  forallb (fun aq => negb (re.atom_ok (fst aq) re.LF)) b.


(** * Proofs *)

(** ** Strings *)

Section StringFacts.

Lemma ends_with_LF_append (s : str) :
  ends_with_LF (s ++ [re.LF]) = true.
Proof.
  induction s as [|c s IH]; [reflexivity|].
  simpl. destruct (s ++ [re.LF]) eqn:E; [|exact IH].
  destruct s; discriminate.
Qed.

Lemma chop_append (s : str) (c : char) : chop (s ++ [c]) = s.
Proof.
  induction s as [|x s IH]; [reflexivity|].
  simpl. destruct (s ++ [c]) eqn:E.
  - destruct s; discriminate.
  - now rewrite IH.
Qed.

Lemma ends_with_LF_chop (s : str) :
  ends_with_LF s = true -> s = chop s ++ [re.LF].
Proof.
  induction s as [|c s IH]; [discriminate|].
  simpl. destruct s as [|d s].
  - intros H. apply N.eqb_eq in H. now subst.
  - intros H. simpl. f_equal. apply IH. exact H.
Qed.

Lemma ends_with_LF_last (a b : str) :
  b <> [] -> ends_with_LF (a ++ b) = ends_with_LF b.
Proof.
  intros Hb. induction a as [|c a IH]; [reflexivity|].
  simpl. destruct (a ++ b) eqn:E; [|exact IH].
  destruct a; simpl in E; [contradiction | discriminate].
Qed.

End StringFacts.

(** ** The pattern language *)

Module language_facts.

Import re language.

Lemma splits_spec (s a b : str) : In (a, b) (splits s) <-> s = a ++ b.
Proof.
  revert a b. induction s as [|c s IH]; intros a b; simpl.
  - split.
    + intros [H | []]. now inversion H.
    + intros H. left. destruct a; [simpl in H; now subst | discriminate].
  - split.
    + intros [H | H].
      * now inversion H.
      * apply in_map_iff in H. destruct H as [[a' b'] [H1 H2]].
        simpl in H1. inversion H1; subst. apply IH in H2. now subst.
    + intros H. destruct a as [|x a]; simpl in H.
      * left. now subst.
      * right. inversion H; subst. apply in_map_iff.
        exists (a, b). split; [reflexivity | now apply IH].
Qed.

Lemma all_ok_append (a : atom) (x y : str) :
  all_ok a (x ++ y) = all_ok a x && all_ok a y.
Proof.
  induction x as [|c x IH]; simpl; [reflexivity|].
  destruct (atom_ok a c); [exact IH | reflexivity].
Qed.

Lemma piece_spec (a : atom) (q : quant) (s : str) :
  piece a q s = true <-> allowed q (length s) /\ all_ok a s = true.
Proof.
  destruct q; unfold piece, allowed.
  - destruct (Nat.eqb_spec (length s) 1); intuition discriminate.
  - intuition.
  - destruct (Nat.leb_spec 1 (length s)) as [Hle | Hlt].
    + tauto.
    + split; [discriminate | intros [Hle _]; lia].
  - destruct (Nat.eqb_spec (length s) n); intuition discriminate.
Qed.

Lemma pieces_nil (s : str) : pieces [] s = true <-> s = [].
Proof. destruct s; simpl; split; congruence. Qed.

Lemma pieces_cons (a : atom) (q : quant) (b : list (atom * quant)) (s : str) :
  pieces ((a, q) :: b) s = true <->
  exists s1 s2, s = s1 ++ s2 /\ piece a q s1 = true /\ pieces b s2 = true.
Proof.
  simpl. rewrite existsb_exists. split.
  - intros [[s1 s2] [Hin H]]. simpl in H. apply splits_spec in Hin.
    exists s1, s2. destruct (piece a q s1); [auto | discriminate].
  - intros (s1 & s2 & Hs & H1 & H2). exists (s1, s2). split.
    + now apply splits_spec.
    + simpl. now rewrite H1.
Qed.

(** Every string of the language is at least [min_length] long, and
    exactly that long when no atom is starred. *)
Lemma pieces_min_length (b : list (atom * quant)) (s : str) :
  pieces b s = true -> min_length b <= length s.
Proof.
  revert s. induction b as [|[a q] b IH]; intros s H.
  - simpl. lia.
  - apply pieces_cons in H. destruct H as (s1 & s2 & -> & H1 & H2).
    apply piece_spec in H1. destruct H1 as [H1 _]. apply IH in H2.
    rewrite length_app. destruct q; simpl in *; lia.
Qed.

Lemma pieces_fixed_length (b : list (atom * quant)) (s : str) :
  fixed_length b = true -> pieces b s = true -> length s = min_length b.
Proof.
  revert s. induction b as [|[a q] b IH]; intros s Hf H.
  - apply pieces_nil in H. now subst.
  - apply pieces_cons in H. destruct H as (s1 & s2 & -> & H1 & H2).
    apply piece_spec in H1. destruct H1 as [H1 _].
    rewrite length_app.
    destruct q; simpl in *; try discriminate; rewrite (IH s2 Hf H2); lia.
Qed.

(** A string of a language whose first atom is a single literal starts
    with that literal. *)
Lemma pieces_first_literal (c : char) (b : list (atom * quant)) (s : str) :
  pieces ((Lit c, One) :: b) s = true -> exists s', s = c :: s'.
Proof.
  intros H. apply pieces_cons in H. destruct H as (s1 & s2 & -> & H1 & _).
  apply piece_spec in H1. destruct H1 as [Hl Hok]. simpl in Hl.
  destruct s1 as [|x [|y s1]]; try discriminate.
  simpl in Hok. destruct (N.eqb_spec x c); [|discriminate].
  subst. now exists s2.
Qed.

End language_facts.

(** ** The matcher against the pattern language *)

Module re_facts.

Import re language language_facts.

Lemma match_times_flagless (n : nat) (a : atom) (k : cont) :
  flagless k -> flagless (match_times n a k).
Proof.
  intros Hk b1 b2 s. destruct n; simpl; [apply Hk | reflexivity].
Qed.

Lemma match_star_flagless (a : atom) (k : cont) :
  flagless k -> flagless (match_star a k).
Proof.
  intros Hk b1 b2 s. destruct s; simpl; [apply Hk|].
  now rewrite (Hk b1 b2).
Qed.

Lemma match_times_spec (n : nat) (a : atom) (k : cont) (bol : bool) (s : str) :
  flagless k ->
  match_times n a k bol s = true <->
  exists s1 s2, s = s1 ++ s2 /\ length s1 = n /\
                all_ok a s1 = true /\ k false s2 = true.
Proof.
  intros Hk. revert bol s. induction n as [|n IH]; intros bol s.
  - simpl. rewrite (Hk bol false). split.
    + intros H. exists [], s. auto.
    + intros (s1 & s2 & -> & Hl & _ & H).
      apply length_zero_iff_nil in Hl. now subst.
  - destruct s as [|c s]; simpl.
    + split; [discriminate|].
      intros (s1 & s2 & Hs & Hl & _). destruct s1; discriminate.
    + rewrite andb_true_iff, IH. split.
      * intros [Hc (s1 & s2 & -> & Hl & Hok & H)].
        exists (c :: s1), s2. simpl. rewrite Hc. auto.
      * intros (s1 & s2 & Hs & Hl & Hok & H).
        destruct s1 as [|x s1]; [discriminate|].
        simpl in Hs, Hl, Hok. inversion Hs; subst x s.
        destruct (atom_ok a c); [|discriminate].
        split; [reflexivity|]. exists s1, s2. auto.
Qed.

Lemma match_star_spec (a : atom) (k : cont) (bol : bool) (s : str) :
  flagless k ->
  match_star a k bol s = true <->
  exists s1 s2, s = s1 ++ s2 /\ all_ok a s1 = true /\ k false s2 = true.
Proof.
  intros Hk. revert bol. induction s as [|c s IH]; intros bol; simpl.
  - rewrite (Hk bol false). split.
    + intros H. exists [], []. auto.
    + intros (s1 & s2 & Hs & _ & H).
      destruct s1; [simpl in Hs; now subst | discriminate].
  - rewrite orb_true_iff, andb_true_iff, IH, (Hk bol false). split.
    + intros [[Hc (s1 & s2 & -> & Hok & H)] | H].
      * exists (c :: s1), s2. simpl. rewrite Hc. auto.
      * exists [], (c :: s). auto.
    + intros (s1 & s2 & Hs & Hok & H). destruct s1 as [|x s1].
      * right. simpl in Hs. now subst.
      * left. simpl in Hs, Hok. inversion Hs; subst x s.
        destruct (atom_ok a c); [|discriminate].
        split; [reflexivity|]. exists s1, s2. auto.
Qed.

(** One repeated atom in front of a pattern takes a piece off the front
    of the string. *)
Lemma match_here_chars (a : atom) (q : quant) (r : regex) (bol : bool) (s : str) :
  flagless (match_here r) ->
  match_here (Chars a q :: r) bol s = true <->
  exists s1 s2, s = s1 ++ s2 /\ piece a q s1 = true /\
                match_here r false s2 = true.
Proof.
  intros Hk.
  assert (Hp : forall s1, piece a q s1 = true <->
                          allowed q (length s1) /\ all_ok a s1 = true)
    by (intros; apply piece_spec).
  destruct q; cbn [match_here].
  - rewrite match_times_spec by exact Hk. split.
    + intros (s1 & s2 & Hs & Hl & Hok & H). exists s1, s2.
      rewrite Hp. simpl. auto.
    + intros (s1 & s2 & Hs & H1 & H). apply Hp in H1. simpl in H1.
      exists s1, s2. tauto.
  - rewrite match_star_spec by exact Hk. split.
    + intros (s1 & s2 & Hs & Hok & H). exists s1, s2. rewrite Hp. simpl. auto.
    + intros (s1 & s2 & Hs & H1 & H). apply Hp in H1. exists s1, s2. tauto.
  - rewrite match_times_spec by (apply match_star_flagless; exact Hk). split.
    + intros (s1 & s2 & Hs & Hl & Hok & H).
      apply match_star_spec in H; [|exact Hk].
      destruct H as (s3 & s4 & -> & Hok3 & H).
      exists (s1 ++ s3), s4. rewrite Hp, all_ok_append, length_app, Hok, Hok3.
      rewrite <- app_assoc. simpl. repeat split; auto. lia.
    + intros (s1 & s2 & Hs & H1 & H). apply Hp in H1. simpl in H1.
      destruct H1 as [Hl Hok]. destruct s1 as [|c s1]; [simpl in Hl; lia|].
      exists [c], (s1 ++ s2). simpl in Hok.
      destruct (atom_ok a c) eqn:Hc; [|discriminate].
      repeat split; auto.
      * simpl. now rewrite Hc.
      * apply match_star_spec; [exact Hk|]. exists s1, s2. auto.
  - rewrite match_times_spec by exact Hk. split.
    + intros (s1 & s2 & Hs & Hl & Hok & H). exists s1, s2.
      rewrite Hp. simpl. auto.
    + intros (s1 & s2 & Hs & H1 & H). apply Hp in H1. simpl in H1.
      exists s1, s2. tauto.
Qed.

Lemma match_here_chars_flagless (a : atom) (q : quant) (r : regex) :
  flagless (match_here r) -> flagless (match_here (Chars a q :: r)).
Proof.
  intros Hk. destruct q; cbn [match_here];
    auto using match_times_flagless, match_star_flagless.
Qed.

Lemma match_here_items_flagless (b : list (atom * quant)) (t : regex) :
  flagless (match_here t) -> flagless (match_here (items b ++ t)).
Proof.
  intros Ht. induction b as [|[a q] b IH]; [exact Ht|].
  simpl items. simpl app. now apply match_here_chars_flagless.
Qed.

(** A sequence of repeated atoms in front of a pattern takes a string of
    its language off the front of the string. *)
Lemma match_here_items (b : list (atom * quant)) (t : regex) (bol : bool) (s : str) :
  flagless (match_here t) ->
  match_here (items b ++ t) bol s = true <->
  exists s1 s2, s = s1 ++ s2 /\ pieces b s1 = true /\
                match_here t false s2 = true.
Proof.
  intros Ht. revert bol s. induction b as [|[a q] b IH]; intros bol s.
  - simpl items. simpl app. rewrite (Ht bol false). split.
    + intros H. exists [], s. auto.
    + intros (s1 & s2 & -> & H1 & H). apply pieces_nil in H1. now subst.
  - simpl items. simpl app.
    rewrite match_here_chars by (apply match_here_items_flagless; exact Ht).
    split.
    + intros (s1 & s2 & -> & H1 & H). apply IH in H.
      destruct H as (s3 & s4 & -> & H3 & H).
      exists (s1 ++ s3), s4. rewrite <- app_assoc. repeat split; auto.
      apply pieces_cons. exists s1, s3. auto.
    + intros (s1 & s2 & -> & H1 & H). apply pieces_cons in H1.
      destruct H1 as (s3 & s4 & -> & H3 & H4).
      exists s3, (s4 ++ s2). rewrite <- app_assoc. repeat split; auto.
      apply IH. exists s4, s2. auto.
Qed.

Lemma at_end_spec (s : str) :
  at_end s = true <-> s = [] \/ s = [LF].
Proof.
  destruct s as [|c [|d s]]; simpl.
  - tauto.
  - rewrite N.eqb_eq. split.
    + intros ->. now right.
    + intros [H | H]; [discriminate | now inversion H].
  - split; [discriminate | intros [H | H]; discriminate].
Qed.

(** A pattern that starts with [^] can only match at offset 0. *)
Lemma scan_bol_later (r : regex) (p : nat) (s : str) :
  scan (Bol :: r) (S p) s = None.
Proof.
  revert p. induction s as [|c s IH]; intros p; simpl; [reflexivity | apply IH].
Qed.

Lemma scan_bol (r : regex) (s : str) :
  scan (Bol :: r) 0 s = if match_here r true s then Some 0 else None.
Proof.
  destruct s; simpl; destruct (match_here r true _); auto using scan_bol_later.
Qed.

(** An anchored pattern finds a match exactly in the strings of its
    language and in those strings followed by one line feed. *)
Lemma match_here_anchored (b : list (atom * quant)) (s : str) :
  match_here (items b ++ [Eol]) true s =
  pieces b s || (ends_with_LF s && pieces b (chop s)).
Proof.
  apply eq_iff_eq_true.
  rewrite match_here_items by (intros b1 b2 x; reflexivity).
  rewrite orb_true_iff, andb_true_iff. split.
  - intros (s1 & s2 & -> & H1 & H). simpl in H. rewrite andb_true_r in H.
    apply at_end_spec in H. destruct H as [-> | ->].
    + left. now rewrite app_nil_r.
    + right. now rewrite ends_with_LF_append, chop_append.
  - intros [H | [H1 H2]].
    + exists s, []. rewrite app_nil_r. auto.
    + exists (chop s), [LF]. split; [|auto].
      now apply ends_with_LF_chop.
Qed.

Lemma search_anchored (pattern : str) (r : regex) (s : str) :
  parse pattern = Some r ->
  anchored r ->
  search pattern s =
  Return (if pieces (body r) s || (ends_with_LF s && pieces (body r) (chop s))
          then Some {| start := 0 |} else None).
Proof.
  intros Hp Ha. unfold anchored in Ha. unfold search. rewrite Hp.
  set (b := body r) in *. rewrite Ha.
  rewrite scan_bol, match_here_anchored.
  now destruct (pieces b s || _).
Qed.

End re_facts.

(** ** The three matchers *)

Section Matchers.

Import re language language_facts re_facts.

Lemma in_language_body (m : patchinfo) (f : str) :
  in_language m f = pieces (pattern_body m) f.
Proof. destruct m; reflexivity. Qed.

(** The text of [matches], which is the same in the three modules, run
    on globals whose pattern is anchored. *)
Lemma matches_text_anchored (g : namespace) (r : regex) (f : str) :
  parse (filename_regex g) = Some r ->
  anchored r ->
  result g (gapps_gummy.matches f) =
  Return (pieces (body r) f || (ends_with_LF f && pieces (body r) (chop f))).
Proof.
  intros Hp Ha.
  unfold result, gapps_gummy.matches, bind, global, call, ret.
  rewrite (search_anchored _ r f Hp Ha).
  now destruct (pieces (body r) f || _).
Qed.

(** All three patterns are anchored, so each matcher accepts the strings
    of its pattern's language, and those strings followed by one line
    feed, and nothing else. *)
Lemma matches_language (m : patchinfo) (f : str) :
  matches m f =
  Return (in_language m f || (ends_with_LF f && in_language m (chop f))).
Proof.
  rewrite !in_language_body.
  destruct m;
    (eapply eq_trans;
     [ eapply matches_text_anchored; [vm_compute; reflexivity | reflexivity]
     | reflexivity ]).
Qed.

Lemma matches_true_iff (m : patchinfo) (f : str) :
  matches m f = Return true <->
  pieces (pattern_body m) f = true \/
  (ends_with_LF f = true /\ pieces (pattern_body m) (chop f) = true).
Proof.
  rewrite matches_language, !in_language_body.
  rewrite <- andb_true_iff, <- orb_true_iff.
  destruct (pieces (pattern_body m) f || _); split;
    congruence || discriminate.
Qed.

(** The matchers are total: they return a boolean, whatever the
    filename. *)
Lemma matches_returns (m : patchinfo) (f : str) :
  exists b, matches m f = Return b.
Proof. rewrite matches_language. eauto. Qed.

Lemma matches_first_literal (m : patchinfo) (c : char) (f : str) :
  first_literal m = Some c ->
  matches m f = Return true ->
  exists rest, f = c :: rest.
Proof.
  intros Hc H. apply matches_true_iff in H. unfold first_literal in Hc.
  destruct (pattern_body m) as [|[[c'| |] [| | |]] b]; try discriminate.
  inversion Hc; subst c'.
  destruct H as [H | [Hlf H]].
  - eapply pieces_first_literal. exact H.
  - apply pieces_first_literal in H. destruct H as [rest Hrest].
    apply ends_with_LF_chop in Hlf. rewrite Hrest in Hlf.
    exists (rest ++ [LF]). exact Hlf.
Qed.

Lemma first_literal_inj (m1 m2 : patchinfo) (c : char) :
  first_literal m1 = Some c -> first_literal m2 = Some c -> m1 = m2.
Proof.
  destruct m1, m2; vm_compute; intros H1 H2;
    try reflexivity; rewrite <- H2 in H1; discriminate.
Qed.

Lemma first_literal_some (m : patchinfo) : exists c, first_literal m = Some c.
Proof. destruct m; vm_compute; eauto. Qed.

End Matchers.

(** ** Calls of [matches] leave the globals alone *)

Section Purity.

Lemma matches_of_globals (m : patchinfo) (g : namespace) (f : str) :
  globals_after g (matches_of m f) = g.
Proof.
  destruct m; unfold globals_after; cbn [matches_of];
    unfold gapps_gummy.matches, aosp.matches, ge_MaKTaiL.matches,
      bind, global, call, ret;
    destruct (re.search (filename_regex g) f) as [[?|]|?]; reflexivity.
Qed.

Lemma matches_each_globals (m : patchinfo) (g : namespace) (fs : list str) :
  globals_after g (matches_each m fs) = g.
Proof.
  induction fs as [|f fs IH]; [reflexivity|].
  pose proof (matches_of_globals m g f) as Hf.
  unfold globals_after in *. cbn [matches_each]. unfold bind at 1.
  destruct (matches_of m f g) as [[b|e] g1]; simpl in Hf; subst g1;
    [|reflexivity].
  unfold bind at 1.
  destruct (matches_each m fs g) as [[bs|e] g2]; simpl in IH; subst g2;
    reflexivity.
Qed.

End Purity.

(** ** The claims *)

Section Claims.

Import re language language_facts re_facts.

(** C1. The three matchers are pairwise disjoint: on every filename at most
    one of the three modules' [matches] functions returns [True]; two
    modules that both return [True] on a filename are the same module, and
    the list of modules that accept a filename has at most one element. *)
Theorem C1_matchers_pairwise_disjoint (f : str) :
  (forall m1 m2 : patchinfo,
      matches m1 f = Return true -> matches m2 f = Return true -> m1 = m2)
  /\ List.length (candidates f) <= 1.
Proof.
  assert (Hpair : forall m1 m2 : patchinfo,
             matches m1 f = Return true -> matches m2 f = Return true ->
             m1 = m2).
  { intros m1 m2 H1 H2.
    destruct (first_literal_some m1) as [c1 Hc1].
    destruct (first_literal_some m2) as [c2 Hc2].
    destruct (matches_first_literal m1 c1 f Hc1 H1) as [r1 E1].
    destruct (matches_first_literal m2 c2 f Hc2 H2) as [r2 E2].
    rewrite E1 in E2. inversion E2; subst c2.
    exact (first_literal_inj m1 m2 c1 Hc1 Hc2). }
  split; [exact Hpair|].
  unfold candidates, all_patchinfo. cbn [filter].
  destruct (matches Gummy_Google_Apps f) as [[|]|] eqn:E1;
    destruct (matches Broodplanks_AOSP f) as [[|]|] eqn:E2;
    destruct (matches MaKTaiLs_Google_Edition f) as [[|]|] eqn:E3;
    cbn [List.length]; try lia;
    try (pose proof (Hpair _ _ E1 E2); discriminate);
    try (pose proof (Hpair _ _ E1 E3); discriminate);
    try (pose proof (Hpair _ _ E2 E3); discriminate).
Qed.

Lemma C1_matchers_pairwise_disjoint_witness :
  matches Broodplanks_AOSP (lit "aosp4-i9505-nightly.zip") = Return true /\
  Broodplanks_AOSP = Broodplanks_AOSP.
Proof.
  split; [reflexivity|].
  apply (proj1 (C1_matchers_pairwise_disjoint (lit "aosp4-i9505-nightly.zip")));
    reflexivity.
Defined.

(** C2. On the filename gapps-kk-20140615.zip the Gummy Google Apps module's
    [matches] returns [True], and the descriptor that its [get_file_info]
    returns has the name Gummy Google Apps, [has_boot_image] false and no
    ramdisk reference. *)
Theorem C2_gapps_gummy_scenario :
  result gapps_gummy.globals
         (gapps_gummy.matches (lit "gapps-kk-20140615.zip"))
  = Return true /\
  exists info : FileInfo,
    result gapps_gummy.globals gapps_gummy.get_file_info = Return info /\
    name info = Some (lit "Gummy Google Apps") /\
    has_boot_image info = false /\
    ramdisk info = None.
Proof.
  split; [reflexivity|]. eexists. repeat split.
Qed.

(** C3. On the filename aosp4-i9505-nightly.zip the AOSP module's [matches]
    returns [True], and the descriptor that its [get_file_info] returns has
    the ramdisk jflte/AOSP/AOSP.def and [has_boot_image] true, the default
    of a fresh descriptor, which the module never assigns. *)
Theorem C3_aosp_scenario :
  result aosp.globals (aosp.matches (lit "aosp4-i9505-nightly.zip"))
  = Return true /\
  exists info : FileInfo,
    result aosp.globals aosp.get_file_info = Return info /\
    ramdisk info = Some (lit "jflte/AOSP/AOSP.def") /\
    has_boot_image info = true /\
    has_boot_image info = has_boot_image FileInfo_new.
Proof.
  split; [reflexivity|]. eexists. repeat split.
Qed.

(** C4. On the filename i9505-ge-untouched-4.3-release.zip the Google
    Edition module's [matches] returns [True], and the descriptor that its
    [get_file_info] returns has the ramdisk
    jflte/GoogleEdition/GoogleEdition.def. *)
Theorem C4_google_edition_scenario :
  result ge_MaKTaiL.globals
         (ge_MaKTaiL.matches (lit "i9505-ge-untouched-4.3-release.zip"))
  = Return true /\
  exists info : FileInfo,
    result ge_MaKTaiL.globals ge_MaKTaiL.get_file_info = Return info /\
    ramdisk info = Some (lit "jflte/GoogleEdition/GoogleEdition.def").
Proof.
  split; [reflexivity|]. eexists. repeat split.
Qed.

(** The Gummy pattern has no starred atom: what it accepts is 21
    characters long, or 22 with a closing line feed. *)
Lemma gummy_accepts_length (g : str) :
  matches Gummy_Google_Apps g = Return true ->
  length g = 21 \/ (length g = 22 /\ ends_with_LF g = true).
Proof.
  intros H. apply matches_true_iff in H.
  assert (Hfix : fixed_length (pattern_body Gummy_Google_Apps) = true)
    by reflexivity.
  assert (Hmin : min_length (pattern_body Gummy_Google_Apps) = 21)
    by reflexivity.
  destruct H as [H | [Hlf H]];
    apply (pieces_fixed_length _ _ Hfix) in H; rewrite Hmin in H.
  - left. exact H.
  - right. split; [|exact Hlf].
    rewrite (ends_with_LF_chop g Hlf), length_app, H. reflexivity.
Qed.

(** C5, as the code has it.  Matching is anchored at both ends up to the
    pattern's own wildcards: for each of the three matchers, every
    filename [f] on which [matches] returns [True] and every non-empty
    string [s], [matches] returns [False] on the extended filename, be it
    [f + s] or [s + f], whenever the extended filename is neither in the
    pattern's language nor a string of that language followed by one line
    feed.  For the Gummy Google Apps matcher, whose pattern has no
    wildcard, [matches] returns [False] on [f + s] for every non-empty [s]
    other than a single line feed. *)
Theorem C5_anchored_up_to_language
    (m : patchinfo) (f s : str) :
  matches m f = Return true ->
  s <> [] ->
  (forall g : str,
      g = f ++ s \/ g = s ++ f ->
      in_language m g = false ->
      ends_with_LF g && in_language m (chop g) = false ->
      matches m g = Return false)
  /\ (m = Gummy_Google_Apps ->
      s <> [LF] ->
      matches m (f ++ s) = Return false).
Proof.
  intros Hf Hs. split.
  - intros g _ Hg Hlf. now rewrite matches_language, Hg, Hlf.
  - intros -> Hnl.
    destruct (matches_returns Gummy_Google_Apps (f ++ s)) as [[|] Hb];
      [exfalso | exact Hb].
    apply gummy_accepts_length in Hf, Hb.
    rewrite length_app in Hb.
    assert (Hlen : 1 <= length s)
      by (destruct s; [contradiction | simpl; lia]).
    destruct Hb as [Hb | [Hb Hlf]]; [destruct Hf as [Hf | [Hf _]]; lia|].
    rewrite (ends_with_LF_last f s Hs) in Hlf.
    destruct s as [|c [|d s]];
      [contradiction | | destruct Hf as [Hf | [Hf _]]; simpl in Hb; lia].
    simpl in Hlf. apply N.eqb_eq in Hlf. subst c. now apply Hnl.
Qed.

Lemma C5_anchored_up_to_language_witness :
  matches Gummy_Google_Apps (lit "gapps-kk-20140615.zip") = Return true /\
  matches Gummy_Google_Apps (lit "gapps-kk-20140615.zip" ++ lit ".bak")
  = Return false /\
  matches Gummy_Google_Apps (lit "old-" ++ lit "gapps-kk-20140615.zip")
  = Return false /\
  matches Broodplanks_AOSP (lit "aosp4-i9505-a.zip" ++ lit ".tar" ++ [LF])
  = Return false.
Proof.
  pose proof (C5_anchored_up_to_language Gummy_Google_Apps
                (lit "gapps-kk-20140615.zip") (lit ".bak") eq_refl
                ltac:(discriminate)) as [H1 H2].
  pose proof (C5_anchored_up_to_language Gummy_Google_Apps
                (lit "gapps-kk-20140615.zip") (lit "old-") eq_refl
                ltac:(discriminate)) as [H3 _].
  pose proof (C5_anchored_up_to_language Broodplanks_AOSP
                (lit "aosp4-i9505-a.zip") (lit ".tar" ++ [LF]) eq_refl
                ltac:(discriminate)) as [H4 _].
  split; [reflexivity|]. split; [|split].
  - apply (H2 eq_refl). discriminate.
  - apply H3; [right|..]; reflexivity.
  - apply H4; [left|..]; reflexivity.
Defined.

(** What [$] does with a closing line feed: the Gummy matcher accepts an
    accepted filename followed by one line feed. *)
Lemma gummy_closing_line_feed :
  matches Gummy_Google_Apps (lit "gapps-kk-20140615.zip" ++ [LF])
  = Return true.
Proof. reflexivity. Qed.

(** C5 as stated fails: the AOSP pattern has a wildcard before its
    extension, so aosp4-i9505-a.zip followed by the non-empty .zip is
    accepted again. *)
Lemma C5_extension_counterexample :
  ~ (forall (m : patchinfo) (f s : str),
        matches m f = Return true ->
        s <> [] ->
        matches m (f ++ s) = Return false /\
        (in_language m (s ++ f) = false -> matches m (s ++ f) = Return false)).
Proof.
  intros H.
  destruct (H Broodplanks_AOSP (lit "aosp4-i9505-a.zip") (lit ".zip") eq_refl
              ltac:(discriminate)) as [H1 _].
  vm_compute in H1. discriminate.
Qed.

(** C6. On the empty filename each of the three matchers returns [False];
    it returns, it does not raise. *)
Theorem C6_empty_filename (m : patchinfo) :
  matches m [] = Return false.
Proof. destruct m; reflexivity. Qed.

(** C7. Renaming a file outside the pattern's language makes it stop
    matching: the AOSP matcher returns [True] on aosp4-i9505-build.zip and
    [False] on aosp4-i9505-build.tar. *)
Theorem C7_aosp_rename :
  result aosp.globals (aosp.matches (lit "aosp4-i9505-build.zip"))
  = Return true /\
  result aosp.globals (aosp.matches (lit "aosp4-i9505-build.tar"))
  = Return false.
Proof. split; reflexivity. Qed.

(** Whatever is done to the rest of an accepted filename, once its first
    letter is in upper case the matcher returns [False]. *)
Lemma first_letter_uppercased (m : patchinfo) (c : char) (rest rest' : str) :
  matches m (c :: rest) = Return true ->
  matches m (upper_char c :: rest') = Return false.
Proof.
  intros H.
  destruct (first_literal_some m) as [x Hx].
  destruct (matches_first_literal m x _ Hx H) as [r E].
  inversion E; subst x r.
  destruct (matches_returns m (upper_char c :: rest')) as [[|] Hb];
    [exfalso | exact Hb].
  destruct (matches_first_literal m c _ Hx Hb) as [r' E'].
  inversion E' as [[Hup Hr]].
  destruct m; vm_compute in Hx; inversion Hx; subst c; discriminate.
Qed.

(** C8. Matching is case-sensitive: for each of the three matchers,
    uppercasing a filename on which [matches] returns [True] gives a
    filename on which it returns [False]; in particular the Gummy Google
    Apps matcher returns [True] on gapps-kk-20140615.zip and [False] on
    GAPPS-KK-20140615.ZIP. *)
Theorem C8_case_sensitive :
  (forall (m : patchinfo) (f : str),
      matches m f = Return true -> matches m (upper f) = Return false)
  /\ matches Gummy_Google_Apps (lit "gapps-kk-20140615.zip") = Return true
  /\ upper (lit "gapps-kk-20140615.zip") = lit "GAPPS-KK-20140615.ZIP"
  /\ matches Gummy_Google_Apps (lit "GAPPS-KK-20140615.ZIP") = Return false.
Proof.
  split; [|repeat split].
  intros m f H.
  destruct (first_literal_some m) as [c Hc].
  destruct (matches_first_literal m c f Hc H) as [rest ->].
  exact (first_letter_uppercased m c rest (upper rest) H).
Qed.

Lemma C8_case_sensitive_witness :
  matches Broodplanks_AOSP (lit "aosp4-i9505-nightly.zip") = Return true /\
  matches Broodplanks_AOSP (upper (lit "aosp4-i9505-nightly.zip"))
  = Return false.
Proof.
  split; [reflexivity|].
  apply (proj1 C8_case_sensitive). reflexivity.
Defined.

(** C9. Each matcher is a deterministic function of the filename with no
    effect on the module: from any globals, a call of [matches] leaves the
    globals as they were, and so does any run of calls; a call repeated at
    once or after such a run returns what the first call returned; and
    [get_file_info] returns the same descriptor, field by field, before
    and after the run. *)
Theorem C9_matches_pure
    (m : patchinfo) (g : namespace) (f : str) (calls : list str) :
  globals_after g (matches_of m f) = g
  /\ globals_after g (matches_each m calls) = g
  /\ result (globals_after g (matches_of m f)) (matches_of m f)
     = result g (matches_of m f)
  /\ result (globals_after g (matches_each m calls)) (matches_of m f)
     = result g (matches_of m f)
  /\ result (globals_after g (matches_each m calls)) (get_file_info_of m)
     = result g (get_file_info_of m)
  /\ result g (get_file_info_of m) = Return (file_info g)
  /\ file_info (globals_after g (matches_each m calls)) = file_info g.
Proof.
  rewrite matches_of_globals, matches_each_globals.
  repeat split. destruct m; reflexivity.
Qed.

(** C10. The dots of the Google Edition pattern are not escaped: the
    pattern compiles to a sequence in which every dot is the wildcard and
    none is a literal, so the matcher returns [True] on
    i9505-ge-untouched-4x3-relzip, a filename that neither ends in .zip
    nor contains 4.3. *)
Theorem C10_google_edition_unescaped_dots :
  (exists r : regex,
      parse (filename_regex ge_MaKTaiL.globals) = Some r /\
      In (Chars Dot One) r /\ ~ In (Chars (Lit (ord ".")) One) r)
  /\ result ge_MaKTaiL.globals
            (ge_MaKTaiL.matches (lit "i9505-ge-untouched-4x3-relzip"))
     = Return true
  /\ endswith (lit "i9505-ge-untouched-4x3-relzip") (lit ".zip") = false
  /\ contains (lit "4.3") (lit "i9505-ge-untouched-4x3-relzip") = false.
Proof.
  split; [|repeat split].
  eexists. split; [vm_compute; reflexivity|]. split.
  - simpl. tauto.
  - simpl. intros H.
    repeat (destruct H as [H | H]; [discriminate|]). exact H.
Qed.

End Claims.

(** ** The shape of the accepted filenames *)

Section Shapes.

Import re language language_facts re_facts.

Lemma all_ok_all_chars (a : atom) (s : str) :
  all_ok a s = all_chars (atom_ok a) s.
Proof.
  induction s as [|c s IH]; simpl; [reflexivity|].
  destruct (atom_ok a c); [exact IH | reflexivity].
Qed.

Lemma all_chars_append (p : char -> bool) (x y : str) :
  all_chars p (x ++ y) = all_chars p x && all_chars p y.
Proof.
  induction x as [|c x IH]; simpl; [reflexivity|].
  destruct (p c); [exact IH | reflexivity].
Qed.

Lemma one_char (p : char -> bool) (s : str) :
  length s = 1 -> all_chars p s = true ->
  exists c, s = [c] /\ p c = true.
Proof.
  destruct s as [|c [|d s]]; try discriminate.
  intros _ H. simpl in H. exists c. destruct (p c); [auto | discriminate].
Qed.

Lemma LF_free_not_closing (s : str) :
  LF_free s = true -> ends_with_LF s = false.
Proof.
  unfold LF_free. induction s as [|c s IH]; [reflexivity|].
  simpl. destruct (c =? LF)%N eqn:E; simpl; [discriminate|].
  intros H. destruct s; [reflexivity | exact (IH H)].
Qed.

Lemma pieces_app (b1 b2 : list (atom * quant)) (s : str) :
  pieces (b1 ++ b2) s = true <->
  exists s1 s2, s = s1 ++ s2 /\ pieces b1 s1 = true /\ pieces b2 s2 = true.
Proof.
  revert s. induction b1 as [|[a q] b1 IH]; intros s; cbn [app].
  - split.
    + intros H. exists [], s. auto.
    + intros (s1 & s2 & -> & H1 & H2). apply pieces_nil in H1. now subst.
  - rewrite pieces_cons. split.
    + intros (s1 & s2 & -> & H1 & H2). apply IH in H2.
      destruct H2 as (s3 & s4 & -> & H3 & H4).
      exists (s1 ++ s3), s4. rewrite <- app_assoc. repeat split; auto.
      apply pieces_cons. exists s1, s3. auto.
    + intros (s1 & s2 & -> & H1 & H2). apply pieces_cons in H1.
      destruct H1 as (s3 & s4 & -> & H3 & H4).
      exists s3, (s4 ++ s2). rewrite <- app_assoc. repeat split; auto.
      apply IH. exists s4, s2. auto.
Qed.

Lemma pieces_literals (w s : str) :
  pieces (literals w) s = true <-> s = w.
Proof.
  revert s. induction w as [|c w IH]; intros s; cbn [literals].
  - apply pieces_nil.
  - rewrite pieces_cons. split.
    + intros (s1 & s2 & -> & H1 & H2). apply piece_spec in H1.
      destruct H1 as [Hl Hok]. simpl in Hl.
      destruct s1 as [|x [|y s1]]; try discriminate.
      simpl in Hok. destruct (N.eqb_spec x c); [|discriminate].
      apply IH in H2. now subst.
    + intros ->. exists [c], w. repeat split.
      * apply piece_spec. simpl. now rewrite N.eqb_refl.
      * now apply IH.
Qed.

Lemma pieces_single (a : atom) (q : quant) (s : str) :
  pieces [(a, q)] s = true <->
  allowed q (length s) /\ all_chars (atom_ok a) s = true.
Proof.
  rewrite pieces_cons, <- all_ok_all_chars, <- piece_spec. split.
  - intros (s1 & s2 & -> & H1 & H2). apply pieces_nil in H2. subst.
    now rewrite app_nil_r.
  - intros H. exists s, []. rewrite app_nil_r. repeat split; auto.
Qed.

(** What a matcher accepts, in terms of its pattern's language. *)
Lemma matches_shape (m : patchinfo) (f : str) :
  matches m f = Return true <->
  exists g, pieces (pattern_body m) g = true /\ (f = g \/ f = g ++ LF_string).
Proof.
  rewrite matches_true_iff. split.
  - intros [H | [Hlf H]].
    + exists f. auto.
    + exists (chop f). split; [exact H|]. right.
      now apply ends_with_LF_chop.
  - intros (g & H & [-> | ->]).
    + now left.
    + right. unfold LF_string. now rewrite ends_with_LF_append, chop_append.
Qed.

(** The three patterns, atom by atom. *)
Lemma gummy_body :
  pattern_body Gummy_Google_Apps =
  literals (lit "gapps-kk-") ++ [(Range (ord "0") (ord "9"), Times 8)]
    ++ literals (lit ".zip").
Proof. reflexivity. Qed.

Lemma aosp_body :
  pattern_body Broodplanks_AOSP =
  literals (lit "aosp") ++ [(Range (ord "0") (ord "9"), Plus)]
    ++ literals (lit "-i9505-") ++ [(Dot, Star)] ++ literals (lit ".zip").
Proof. reflexivity. Qed.

Lemma ge_body :
  pattern_body MaKTaiLs_Google_Edition =
  literals (lit "i9505-ge-untouched-4") ++ [(Dot, One)]
    ++ literals (lit "3-") ++ [(Dot, Star)] ++ [(Dot, One)]
    ++ literals (lit "zip").
Proof. reflexivity. Qed.

Lemma gummy_pieces (g : str) :
  pieces (pattern_body Gummy_Google_Apps) g = true <->
  exists d, g = lit "gapps-kk-" ++ d ++ lit ".zip" /\
            length d = 8 /\ all_digits d = true.
Proof.
  rewrite gummy_body. split.
  - intros H. apply pieces_app in H. destruct H as (s1 & r1 & -> & H1 & H).
    apply pieces_app in H. destruct H as (d & s2 & -> & Hd & H2).
    apply pieces_literals in H1, H2. apply pieces_single in Hd.
    subst. exists d. split; [reflexivity | exact Hd].
  - intros (d & -> & Hd). apply pieces_app.
    exists (lit "gapps-kk-"), (d ++ lit ".zip").
    split; [reflexivity|]. split; [now apply pieces_literals|].
    apply pieces_app. exists d, (lit ".zip").
    split; [reflexivity|]. split; [|now apply pieces_literals].
    apply pieces_single. exact Hd.
Qed.

Lemma aosp_pieces (g : str) :
  pieces (pattern_body Broodplanks_AOSP) g = true <->
  exists d mid, g = lit "aosp" ++ d ++ lit "-i9505-" ++ mid ++ lit ".zip" /\
                1 <= length d /\ all_digits d = true /\
                LF_free mid = true.
Proof.
  rewrite aosp_body. split.
  - intros H. apply pieces_app in H. destruct H as (s1 & r1 & -> & H1 & H).
    apply pieces_app in H. destruct H as (d & r2 & -> & Hd & H).
    apply pieces_app in H. destruct H as (s2 & r3 & -> & H2 & H).
    apply pieces_app in H. destruct H as (mid & s3 & -> & Hm & H3).
    apply pieces_literals in H1, H2, H3. apply pieces_single in Hd, Hm.
    subst. exists d, mid. split; [reflexivity|].
    destruct Hd as [Hl Hd]. destruct Hm as [_ Hm]. auto.
  - intros (d & mid & -> & Hl & Hd & Hm). apply pieces_app.
    exists (lit "aosp"), (d ++ lit "-i9505-" ++ mid ++ lit ".zip").
    split; [reflexivity|]. split; [now apply pieces_literals|].
    apply pieces_app. exists d, (lit "-i9505-" ++ mid ++ lit ".zip").
    split; [reflexivity|]. split; [apply pieces_single; split; assumption|].
    apply pieces_app. exists (lit "-i9505-"), (mid ++ lit ".zip").
    split; [reflexivity|]. split; [now apply pieces_literals|].
    apply pieces_app. exists mid, (lit ".zip").
    split; [reflexivity|]. split; [|now apply pieces_literals].
    apply pieces_single. split; [exact I | exact Hm].
Qed.

Lemma ge_pieces (g : str) :
  pieces (pattern_body MaKTaiLs_Google_Edition) g = true <->
  exists c1 mid c2,
    g = lit "i9505-ge-untouched-4" ++ [c1] ++ lit "3-" ++ mid ++ [c2]
          ++ lit "zip" /\
    c1 <> LF /\ c2 <> LF /\ LF_free mid = true.
Proof.
  assert (Hne : forall c, negb (c =? LF)%N = true <-> c <> LF).
  { intros c. rewrite negb_true_iff. apply N.eqb_neq. }
  rewrite ge_body. split.
  - intros H. apply pieces_app in H. destruct H as (s1 & r1 & -> & H1 & H).
    apply pieces_app in H. destruct H as (a1 & r2 & -> & Ha1 & H).
    apply pieces_app in H. destruct H as (s2 & r3 & -> & H2 & H).
    apply pieces_app in H. destruct H as (mid & r4 & -> & Hm & H).
    apply pieces_app in H. destruct H as (a2 & s3 & -> & Ha2 & H3).
    apply pieces_literals in H1, H2, H3. apply pieces_single in Ha1, Hm, Ha2.
    destruct Ha1 as [Hl1 Ha1]. destruct (one_char _ _ Hl1 Ha1) as (c1 & -> & Hc1).
    destruct Ha2 as [Hl2 Ha2]. destruct (one_char _ _ Hl2 Ha2) as (c2 & -> & Hc2).
    subst. exists c1, mid, c2. split; [reflexivity|].
    simpl in Hc1, Hc2. apply Hne in Hc1, Hc2. destruct Hm as [_ Hm]. auto.
  - intros (c1 & mid & c2 & -> & Hc1 & Hc2 & Hm). apply Hne in Hc1, Hc2.
    apply pieces_app.
    exists (lit "i9505-ge-untouched-4"),
           ([c1] ++ lit "3-" ++ mid ++ [c2] ++ lit "zip").
    split; [reflexivity|]. split; [now apply pieces_literals|].
    apply pieces_app. exists [c1], (lit "3-" ++ mid ++ [c2] ++ lit "zip").
    split; [reflexivity|]. split.
    { apply pieces_single. split; [reflexivity|]. simpl. now rewrite Hc1. }
    apply pieces_app. exists (lit "3-"), (mid ++ [c2] ++ lit "zip").
    split; [reflexivity|]. split; [now apply pieces_literals|].
    apply pieces_app. exists mid, ([c2] ++ lit "zip").
    split; [reflexivity|].
    split; [apply pieces_single; split; [exact I | exact Hm]|].
    apply pieces_app. exists [c2], (lit "zip").
    split; [reflexivity|]. split; [|now apply pieces_literals].
    apply pieces_single. split; [reflexivity|]. simpl. now rewrite Hc2.
Qed.

(** Lemmas on line feeds, prefixes and suffixes. *)

Lemma atom_rejecting_LF (a : atom) (s : str) :
  atom_ok a LF = false -> all_ok a s = true -> LF_free s = true.
Proof.
  intros Ha. unfold LF_free. induction s as [|c s IH]; [reflexivity|].
  simpl. destruct (atom_ok a c) eqn:Hc; [|discriminate].
  destruct (N.eqb_spec c LF) as [-> | _]; [congruence | exact IH].
Qed.

Lemma pieces_LF_free (b : list (atom * quant)) (s : str) :
  rejects_LF b = true -> pieces b s = true -> LF_free s = true.
Proof.
  revert s. induction b as [|[a q] b IH]; intros s Hb H.
  - apply pieces_nil in H. now subst.
  - apply pieces_cons in H. destruct H as (s1 & s2 & -> & H1 & H2).
    unfold rejects_LF in Hb. cbn [forallb fst] in Hb.
    apply andb_true_iff in Hb. destruct Hb as [Ha Hb].
    apply negb_true_iff in Ha. apply piece_spec in H1. destruct H1 as [_ H1].
    unfold LF_free. rewrite all_chars_append.
    apply andb_true_iff. split.
    + exact (atom_rejecting_LF a s1 Ha H1).
    + exact (IH s2 Hb H2).
Qed.

Lemma body_rejects_LF (m : patchinfo) : rejects_LF (pattern_body m) = true.
Proof. destruct m; reflexivity. Qed.

Lemma pieces_literal_run (b : list (atom * quant)) (s : str) :
  pieces b s = true -> exists s', s = literal_run b ++ s'.
Proof.
  revert s. induction b as [|[a q] b IH]; intros s H.
  - exists s. reflexivity.
  - destruct a as [c| |], q; try (exists s; reflexivity).
    apply pieces_cons in H. destruct H as (s1 & s2 & -> & H1 & H2).
    apply piece_spec in H1. destruct H1 as [Hl Hok]. simpl in Hl.
    destruct s1 as [|x [|y s1]]; try discriminate.
    simpl in Hok. destruct (N.eqb_spec x c); [|discriminate]. subst x.
    destruct (IH s2 H2) as [s' ->]. exists s'. reflexivity.
Qed.

Lemma startswith_append (w s : str) : startswith (w ++ s) w = true.
Proof.
  induction w as [|c w IH]; [now destruct s|].
  simpl. now rewrite N.eqb_refl.
Qed.

Lemma str_eqb_refl (s : str) : str_eqb s s = true.
Proof.
  induction s as [|c s IH]; [reflexivity|].
  simpl. now rewrite N.eqb_refl.
Qed.

Lemma skipn_append (a b : str) : skipn (length a) (a ++ b) = b.
Proof. induction a as [|c a IH]; [reflexivity | exact IH]. Qed.

Lemma endswith_append (a b : str) : endswith (a ++ b) b = true.
Proof.
  unfold endswith. rewrite length_app.
  replace (length a + length b - length b) with (length a) by lia.
  rewrite skipn_append, str_eqb_refl, andb_true_r.
  apply Nat.leb_le. lia.
Qed.

Lemma pieces_suffix (b : list (atom * quant)) (w s : str) :
  pieces (b ++ literals w) s = true -> exists s', s = s' ++ w.
Proof.
  intros H. apply pieces_app in H. destruct H as (s1 & s2 & -> & _ & H).
  apply pieces_literals in H. subst. now exists s1.
Qed.

(** What the matcher accepts but for the closing line feed is in the
    language. *)
Lemma matches_unclosed (m : patchinfo) (f : str) :
  matches m f = Return true -> ends_with_LF f = false ->
  pieces (pattern_body m) f = true.
Proof.
  intros H Hlf. apply matches_true_iff in H.
  destruct H as [H | [H _]]; [exact H | congruence].
Qed.

End Shapes.

(** ** Further properties of the three matchers *)

Section Further.

Import re language language_facts re_facts.

(** X1. The Gummy Google Apps matcher returns [True] exactly on the
    filenames gapps-kk- followed by eight decimal digits and .zip, and on
    those filenames followed by one line feed. *)
Theorem X1_gummy_accepted_filenames (f : str) :
  matches Gummy_Google_Apps f = Return true <->
  exists d, length d = 8 /\ all_digits d = true /\
            (f = lit "gapps-kk-" ++ d ++ lit ".zip" \/
             f = lit "gapps-kk-" ++ d ++ lit ".zip" ++ LF_string).
Proof.
  rewrite matches_shape. split.
  - intros (g & H & Hf). apply gummy_pieces in H.
    destruct H as (d & -> & Hl & Hd). exists d. repeat split; auto.
    destruct Hf as [-> | ->]; [now left | right].
    now rewrite <- !app_assoc.
  - intros (d & Hl & Hd & Hf). exists (lit "gapps-kk-" ++ d ++ lit ".zip").
    split.
    + apply gummy_pieces. exists d. auto.
    + destruct Hf as [-> | ->]; [now left | right].
      now rewrite <- !app_assoc.
Qed.

(** X2. The AOSP matcher returns [True] exactly on the filenames aosp, one
    or more decimal digits, -i9505-, any text without line feed, and .zip,
    and on those filenames followed by one line feed. *)
Theorem X2_aosp_accepted_filenames (f : str) :
  matches Broodplanks_AOSP f = Return true <->
  exists d mid,
    1 <= length d /\ all_digits d = true /\ LF_free mid = true /\
    (f = lit "aosp" ++ d ++ lit "-i9505-" ++ mid ++ lit ".zip" \/
     f = lit "aosp" ++ d ++ lit "-i9505-" ++ mid ++ lit ".zip" ++ LF_string).
Proof.
  rewrite matches_shape. split.
  - intros (g & H & Hf). apply aosp_pieces in H.
    destruct H as (d & mid & -> & Hl & Hd & Hm). exists d, mid.
    repeat split; auto.
    destruct Hf as [-> | ->]; [now left | right].
    now rewrite <- !app_assoc.
  - intros (d & mid & Hl & Hd & Hm & Hf).
    exists (lit "aosp" ++ d ++ lit "-i9505-" ++ mid ++ lit ".zip"). split.
    + apply aosp_pieces. exists d, mid. auto.
    + destruct Hf as [-> | ->]; [now left | right].
      now rewrite <- !app_assoc.
Qed.

(** X3. The Google Edition matcher returns [True] exactly on the filenames
    i9505-ge-untouched-4, any one character (code point) but the line feed,
    3-, any text without line feed, any one character but the line feed,
    and zip, and on those filenames followed by one line feed. *)
Theorem X3_google_edition_accepted_filenames (f : str) :
  matches MaKTaiLs_Google_Edition f = Return true <->
  exists (c1 : char) (mid : str) (c2 : char),
    c1 <> LF /\ c2 <> LF /\ LF_free mid = true /\
    (f = lit "i9505-ge-untouched-4" ++ [c1] ++ lit "3-" ++ mid ++ [c2]
           ++ lit "zip" \/
     f = lit "i9505-ge-untouched-4" ++ [c1] ++ lit "3-" ++ mid ++ [c2]
           ++ lit "zip" ++ LF_string).
Proof.
  rewrite matches_shape. split.
  - intros (g & H & Hf). apply ge_pieces in H.
    destruct H as (c1 & mid & c2 & -> & H1 & H2 & Hm). exists c1, mid, c2.
    repeat split; auto.
    destruct Hf as [-> | ->]; [now left | right].
    now rewrite <- !app_assoc.
  - intros (c1 & mid & c2 & H1 & H2 & Hm & Hf).
    exists (lit "i9505-ge-untouched-4" ++ [c1] ++ lit "3-" ++ mid ++ [c2]
              ++ lit "zip").
    split.
    + apply ge_pieces. exists c1, mid, c2. auto.
    + destruct Hf as [-> | ->]; [now left | right].
      now rewrite <- !app_assoc.
Qed.

(** The single dots take any code point: a filename with U+4E2D where the
    pattern has its first dot is accepted. *)
Lemma google_edition_wide_character :
  matches MaKTaiLs_Google_Edition
          (lit "i9505-ge-untouched-4" ++ [20013%N] ++ lit "3-a.zip")
  = Return true.
Proof. reflexivity. Qed.

(** X4. With the patterns the three modules give it, [matches] never
    raises: on every filename it returns [True] or it returns [False]. *)
Theorem X4_matches_never_raises (m : patchinfo) (f : str) :
  matches m f = Return true \/ matches m f = Return false.
Proof.
  destruct (matches_returns m f) as [[|] H]; [now left | now right].
Qed.

(** X5. An accepted filename is a single line: whatever a matcher returns
    [True] on has no line feed, except for one that may close it. *)
Theorem X5_accepted_is_single_line (m : patchinfo) (f : str) :
  matches m f = Return true ->
  exists g, LF_free g = true /\ (f = g \/ f = g ++ LF_string).
Proof.
  intros H. apply matches_shape in H. destruct H as (g & H & Hf).
  exists g. split; [|exact Hf].
  exact (pieces_LF_free _ g (body_rejects_LF m) H).
Qed.

Lemma X5_accepted_is_single_line_witness :
  exists g, LF_free g = true /\
            (lit "aosp4-i9505-nightly.zip" = g \/
             lit "aosp4-i9505-nightly.zip" = g ++ LF_string).
Proof.
  apply (X5_accepted_is_single_line Broodplanks_AOSP). reflexivity.
Defined.

(** X6. One closing line feed is tolerated, a second one is not: when a
    matcher returns [True] on a filename, it returns [True] on that
    filename followed by a line feed if the filename does not itself end
    in a line feed, and [False] if it does. *)
Theorem X6_one_closing_line_feed (m : patchinfo) (f : str) :
  matches m f = Return true ->
  matches m (f ++ LF_string) = Return (negb (ends_with_LF f)).
Proof.
  intros H. destruct (ends_with_LF f) eqn:Hlf; simpl.
  - destruct (matches_returns m (f ++ LF_string)) as [[|] Hb];
      [exfalso | exact Hb].
    apply matches_true_iff in Hb. unfold LF_string in Hb.
    rewrite chop_append in Hb. destruct Hb as [Hb | [_ Hb]];
      apply (pieces_LF_free _ _ (body_rejects_LF m)) in Hb;
      apply LF_free_not_closing in Hb.
    + rewrite ends_with_LF_append in Hb. discriminate.
    + congruence.
  - apply matches_shape. exists f. split; [|now right].
    now apply matches_unclosed.
Qed.

Lemma X6_one_closing_line_feed_witness :
  matches Gummy_Google_Apps (lit "gapps-kk-20140615.zip" ++ LF_string)
  = Return true /\
  matches Gummy_Google_Apps
          ((lit "gapps-kk-20140615.zip" ++ LF_string) ++ LF_string)
  = Return false.
Proof.
  split.
  - apply (X6_one_closing_line_feed Gummy_Google_Apps
             (lit "gapps-kk-20140615.zip")).
    reflexivity.
  - apply (X6_one_closing_line_feed Gummy_Google_Apps
             (lit "gapps-kk-20140615.zip" ++ LF_string)).
    reflexivity.
Defined.

(** X7. The wildcard of the AOSP and Google Edition patterns keeps an
    accepted filename accepted when more text and a new .zip are put
    after it: if the matcher returns [True] on a filename that does not
    end in a line feed, it returns [True] on that filename followed by any
    text without line feed and .zip. *)
Theorem X7_wildcard_absorbs_extensions (m : patchinfo) (f s : str) :
  m <> Gummy_Google_Apps ->
  matches m f = Return true ->
  ends_with_LF f = false ->
  LF_free s = true ->
  matches m (f ++ s ++ lit ".zip") = Return true.
Proof.
  intros Hm H Hlf Hs. apply matches_unclosed in H; [|exact Hlf].
  apply matches_shape. exists (f ++ s ++ lit ".zip"). split; [|now left].
  destruct m; [contradiction | |].
  - apply aosp_pieces in H. destruct H as (d & mid & -> & Hl & Hd & Hmid).
    apply aosp_pieces. exists d, (mid ++ lit ".zip" ++ s). repeat split; auto.
    + now rewrite <- !app_assoc.
    + unfold LF_free in *. rewrite !all_chars_append, Hmid, Hs. reflexivity.
  - apply ge_pieces in H. destruct H as (c1 & mid & c2 & -> & H1 & H2 & Hmid).
    apply ge_pieces. exists c1, (mid ++ [c2] ++ lit "zip" ++ s), (ord ".").
    repeat split; auto.
    + rewrite <- !app_assoc. reflexivity.
    + discriminate.
    + unfold LF_free in *. rewrite !all_chars_append, Hmid, Hs.
      simpl. apply N.eqb_neq in H2. now rewrite H2.
Qed.

Lemma X7_wildcard_absorbs_extensions_witness :
  matches Broodplanks_AOSP
          (lit "aosp4-i9505-build.zip" ++ lit ".orig" ++ lit ".zip")
  = Return true.
Proof.
  apply X7_wildcard_absorbs_extensions;
    [discriminate | reflexivity | reflexivity | reflexivity].
Defined.

(** X8. The Gummy Google Apps pattern has a fixed width: a filename it
    accepts has 21 characters, or 22 when a line feed closes it, and
    putting any non-empty text in front of an accepted filename gives a
    filename the matcher returns [False] on. *)
Theorem X8_gummy_fixed_width (f s : str) :
  matches Gummy_Google_Apps f = Return true ->
  (length f = if ends_with_LF f then 22 else 21)
  /\ (s <> [] -> matches Gummy_Google_Apps (s ++ f) = Return false).
Proof.
  assert (Hshape : forall x, matches Gummy_Google_Apps x = Return true ->
             exists g, length g = 21 /\ ends_with_LF g = false /\
                       (x = g \/ x = g ++ LF_string)).
  { intros x Hx. apply matches_shape in Hx. destruct Hx as (g & Hg & Hx).
    exists g. split; [|split; [|exact Hx]].
    - now apply pieces_fixed_length in Hg.
    - apply LF_free_not_closing.
      exact (pieces_LF_free _ g (body_rejects_LF Gummy_Google_Apps) Hg). }
  intros Hf. destruct (Hshape f Hf) as (g & Hl & Hlf & Hg). split.
  - destruct Hg as [-> | ->].
    + now rewrite Hlf.
    + unfold LF_string. rewrite ends_with_LF_append, length_app, Hl.
      reflexivity.
  - intros Hs.
    destruct (matches_returns Gummy_Google_Apps (s ++ f)) as [[|] Hb];
      [exfalso | exact Hb].
    destruct (Hshape _ Hb) as (g' & Hl' & Hlf' & Hg').
    assert (Hlen : 1 <= length s)
      by (destruct s; [contradiction | simpl; lia]).
    assert (Hfne : f <> [])
      by (destruct Hg as [-> | ->]; destruct g; discriminate).
    assert (Hends : ends_with_LF (s ++ f) = ends_with_LF f)
      by (now apply ends_with_LF_last).
    assert (Hsum : length (s ++ f) = length s + length f)
      by apply length_app.
    destruct Hg as [-> | ->]; destruct Hg' as [E | E]; rewrite E in *.
    + lia.
    + unfold LF_string in Hends. rewrite ends_with_LF_append in Hends.
      congruence.
    + unfold LF_string in Hsum. rewrite length_app in Hsum. simpl in Hsum. lia.
    + unfold LF_string in Hsum. rewrite !length_app in Hsum.
      simpl in Hsum. lia.
Qed.

Lemma X8_gummy_fixed_width_witness :
  length (lit "gapps-kk-20140615.zip") = 21 /\
  matches Gummy_Google_Apps (lit "new-" ++ lit "gapps-kk-20140615.zip")
  = Return false.
Proof.
  destruct (X8_gummy_fixed_width (lit "gapps-kk-20140615.zip") (lit "new-")
              eq_refl) as [H1 H2].
  split; [exact H1 | apply H2; discriminate].
Defined.

(** X9. Every accepted filename starts with the literal text its pattern
    starts with: gapps-kk- for Gummy Google Apps, aosp for AOSP and
    i9505-ge-untouched-4 for Google Edition. *)
Theorem X9_accepted_starts_with_literal (m : patchinfo) (f : str) :
  matches m f = Return true ->
  startswith f (match m with
                | Gummy_Google_Apps => lit "gapps-kk-"
                | Broodplanks_AOSP => lit "aosp"
                | MaKTaiLs_Google_Edition => lit "i9505-ge-untouched-4"
                end) = true.
Proof.
  intros H. apply matches_shape in H. destruct H as (g & Hg & Hf).
  apply pieces_literal_run in Hg. destruct Hg as [s' ->].
  assert (E : exists t, f = literal_run (pattern_body m) ++ t).
  { destruct Hf as [-> | ->]; [now exists s'|].
    exists (s' ++ LF_string). symmetry. apply app_assoc. }
  destruct E as [t ->].
  destruct m; apply startswith_append.
Qed.

Lemma X9_accepted_starts_with_literal_witness :
  startswith (lit "i9505-ge-untouched-4.3-release.zip")
             (lit "i9505-ge-untouched-4") = true.
Proof.
  apply (X9_accepted_starts_with_literal MaKTaiLs_Google_Edition).
  reflexivity.
Defined.

(** X10. A filename that starts with none of the three literal texts is
    accepted by no module: all three matchers return [False] and the list
    of accepting modules is empty. *)
Theorem X10_unknown_prefix_no_candidate (f : str) :
  startswith f (lit "gapps-kk-") = false ->
  startswith f (lit "aosp") = false ->
  startswith f (lit "i9505-ge-untouched-4") = false ->
  (forall m : patchinfo, matches m f = Return false) /\ candidates f = [].
Proof.
  intros H1 H2 H3.
  assert (Hall : forall m : patchinfo, matches m f = Return false).
  { intros m. destruct (matches_returns m f) as [[|] Hb]; [|exact Hb].
    apply matches_shape in Hb. destruct Hb as (g & Hg & Hf).
    apply pieces_literal_run in Hg. destruct Hg as [s' ->].
    assert (E : exists t, f = literal_run (pattern_body m) ++ t).
    { destruct Hf as [-> | ->]; [now exists s'|].
      exists (s' ++ LF_string). symmetry. apply app_assoc. }
    destruct E as [t ->].
    destruct m;
      [rewrite startswith_append in H1 | rewrite startswith_append in H2
       | rewrite startswith_append in H3]; discriminate. }
  split; [exact Hall|].
  unfold candidates, all_patchinfo. cbn [filter]. now rewrite !Hall.
Qed.

Lemma X10_unknown_prefix_no_candidate_witness :
  candidates (lit "random-file.zip") = [].
Proof.
  apply (X10_unknown_prefix_no_candidate (lit "random-file.zip")); reflexivity.
Defined.

(** X11. An accepted filename that no line feed closes ends in zip, and for
    the Gummy Google Apps and AOSP matchers in .zip; the Google Edition
    pattern does not ask for the dot. *)
Theorem X11_accepted_extension (m : patchinfo) (f : str) :
  matches m f = Return true ->
  ends_with_LF f = false ->
  endswith f (lit "zip") = true
  /\ (m <> MaKTaiLs_Google_Edition -> endswith f (lit ".zip") = true).
Proof.
  intros H Hlf. apply matches_unclosed in H; [|exact Hlf].
  destruct m.
  - change (pattern_body Gummy_Google_Apps)
      with ((literals (lit "gapps-kk-")
               ++ [(Range (ord "0") (ord "9"), Times 8)])
              ++ literals (lit ".zip")) in H.
    apply pieces_suffix in H. destruct H as [s' ->]. split.
    + replace (s' ++ lit ".zip") with ((s' ++ lit ".") ++ lit "zip")
        by now rewrite <- app_assoc.
      apply endswith_append.
    + intros _. apply endswith_append.
  - change (pattern_body Broodplanks_AOSP)
      with ((literals (lit "aosp") ++ [(Range (ord "0") (ord "9"), Plus)]
               ++ literals (lit "-i9505-") ++ [(Dot, Star)])
              ++ literals (lit ".zip")) in H.
    apply pieces_suffix in H. destruct H as [s' ->]. split.
    + replace (s' ++ lit ".zip") with ((s' ++ lit ".") ++ lit "zip")
        by now rewrite <- app_assoc.
      apply endswith_append.
    + intros _. apply endswith_append.
  - change (pattern_body MaKTaiLs_Google_Edition)
      with ((literals (lit "i9505-ge-untouched-4") ++ [(Dot, One)]
               ++ literals (lit "3-") ++ [(Dot, Star)] ++ [(Dot, One)])
              ++ literals (lit "zip")) in H.
    apply pieces_suffix in H. destruct H as [s' ->]. split.
    + apply endswith_append.
    + intros Hm. contradiction.
Qed.

Lemma X11_accepted_extension_witness :
  endswith (lit "aosp4-i9505-nightly.zip") (lit "zip") = true /\
  endswith (lit "aosp4-i9505-nightly.zip") (lit ".zip") = true.
Proof.
  destruct (X11_accepted_extension Broodplanks_AOSP
              (lit "aosp4-i9505-nightly.zip") eq_refl eq_refl) as [H1 H2].
  split; [exact H1 | apply H2; discriminate].
Defined.

End Further.
